(** * core-js-101, [src/06-objects-tasks.js]

    A shallow embedding of the four exported tasks of the module:
    [Rectangle], [getJSON], [fromJSON] and the fluent [cssSelectorBuilder]
    with its [Selector] class, followed by the properties established
    about them.

    JavaScript objects have identity and are mutated in place, so the
    selector builder is modelled over an explicit store of objects;
    methods are computations in a state monad whose outcome is a returned
    value or a thrown reference. *)

From Stdlib Require Import ZArith String Ascii DecimalString DecimalNat SpecFloat.
From stdpp Require Import base tactics option list.

Local Open Scope string_scope.

(* ================================================================== *)
(** ** Rectangle (lines 23-31) *)
(* ================================================================== *)

(** JavaScript numbers are IEEE 754 binary64 values: [spec_float] with a
    precision of 53 bits and exponents below 1024. *)
Definition number := spec_float.

(** [x * y] on numbers, rounded to nearest even. *)
Definition times (x y : number) : number := SFmul 53 1024 x y.

(** The number an integer literal denotes. *)
Definition literal (z : Z) : number := binary_normalize 53 1024 z 0 false.

Module Rectangle.

(** The object literal returned by [Rectangle]: two data properties and
    the method [getArea]. *)
Record t := mk {
  width : number;
  height : number;
  getArea : unit -> number
}.

End Rectangle.

(** [function Rectangle(width, height)]: [getArea] closes over the two
    parameters, it does not read the properties back. *)
Definition Rectangle (width height : number) : Rectangle.t :=
  {| Rectangle.width := width;
     Rectangle.height := height;
     Rectangle.getArea := fun _ => times width height |}.

(* ================================================================== *)
(** ** Objects, the store and the method monad *)
(* ================================================================== *)

(** Objects live in a store and are referred to by their address. *)
Abbreviation loc := nat (only parsing).

Module Present.

(** [this.present]: created as [{}], its properties are only ever set to
    [true]; a property that is absent reads as [undefined], which is
    falsy, and is modelled by [false]. *)
Record t := mk {
  element : bool;
  id : bool;
  class : bool;
  attr : bool;
  pseudoClass : bool;
  pseudoElement : bool
}.

Definition empty : t := mk false false false false false false.

(** The six assignments [selector.present.<kind> = true]. *)
Definition set_element (p : t) : t :=
  mk true (id p) (class p) (attr p) (pseudoClass p) (pseudoElement p).
Definition set_id (p : t) : t :=
  mk (element p) true (class p) (attr p) (pseudoClass p) (pseudoElement p).
Definition set_class (p : t) : t :=
  mk (element p) (id p) true (attr p) (pseudoClass p) (pseudoElement p).
Definition set_attr (p : t) : t :=
  mk (element p) (id p) (class p) true (pseudoClass p) (pseudoElement p).
Definition set_pseudoClass (p : t) : t :=
  mk (element p) (id p) (class p) (attr p) true (pseudoElement p).
Definition set_pseudoElement (p : t) : t :=
  mk (element p) (id p) (class p) (attr p) (pseudoClass p) true.

End Present.

Module Fields.

(** The own properties of a [Selector] instance. *)
Record t := mk {
  selector : string;
  present : Present.t
}.

Definition set_selector (v : string) (s : t) : t := mk v (present s).
Definition set_present (f : Present.t -> Present.t) (s : t) : t :=
  mk (selector s) (f (present s)).

End Fields.

(** The two classes of object the module creates. *)
Inductive Obj :=
| OSelector (s : Fields.t)
| OError (message : string).

(** The store: object [l] is the [l]-th one that was created. *)
Abbreviation Store := (list Obj) (only parsing).

(** How a call ends: normally, by [throw], or stuck on a reference that
    is not a [Selector] (which the methods never reach, see
    [invoke_never_Wrong]). *)
Inductive outcome (A : Type) :=
| Return (a : A)
| Throw (e : loc)
| Wrong.
Arguments Return {A} a.
Arguments Throw {A} e.
Arguments Wrong {A}.

(** Method bodies: the store is threaded through; a [throw] keeps the
    store as it is at that point, so that writes made before it remain
    visible to the caller. *)
Definition M (A : Type) : Type := Store -> outcome A * Store.

Definition ret {A : Type} (a : A) : M A := fun st => (Return a, st).

Definition bind {A B : Type} (m : M A) (f : A -> M B) : M B := fun st =>
  match m st with
  | (Return a, st') => f a st'
  | (Throw e, st') => (Throw e, st')
  | (Wrong, st') => (Wrong, st')
  end.

Notation "'let*' x := m 'in' k" := (bind m (fun x => k))
  (at level 10, x name, m at level 100, k at level 200).
Notation "m ;; k" := (bind m (fun _ => k))
  (at level 100, k at level 200, right associativity).

Definition throw {A : Type} (e : loc) : M A := fun st => (Throw e, st).

(** [new C(...)]: the fresh object gets the next address. *)
Definition alloc (o : Obj) : M loc := fun st => (Return (length st), (st ++ [o])%list).

(** Reading the properties of the [Selector] at [l]. *)
Definition read (l : loc) : M Fields.t := fun st =>
  match st !! l with
  | Some (OSelector s) => (Return s, st)
  | _ => (Wrong, st)
  end.

(** A property assignment on the [Selector] at [l]. *)
Definition assign (l : loc) (f : Fields.t -> Fields.t) : M unit := fun st =>
  match st !! l with
  | Some (OSelector s) => (Return tt, <[l := OSelector (f s)]> st)
  | _ => (Wrong, st)
  end.

(** The result and the final store of a computation. *)
Definition result {A : Type} (m : M A) (st : Store) : outcome A := fst (m st).
Definition final {A : Type} (m : M A) (st : Store) : Store := snd (m st).

(* ================================================================== *)
(** ** class Selector (lines 119-135) *)
(* ================================================================== *)

Module Selector.

(** [constructor(selector)]: [this.selector = selector || ''] and
    [this.present = {}]. A missing argument is [None]. *)
Definition new (selector : option string) : M loc :=
  alloc (OSelector
    {| Fields.selector :=
         match selector with
         | Some s => if String.eqb s "" then "" else s
         | None => ""
         end;
       Fields.present := Present.empty |}).

Definition stringify (this : loc) : M string :=
  let* s := read this in ret (Fields.selector s).

Definition toString (this : loc) : M string :=
  let* s := read this in ret (Fields.selector s).

Definition quantityError_message : string :=
  "Element, id and pseudo-element should not occur more then one time inside the selector".
Definition orderError_message : string :=
  "Selector parts should be arranged in the following order: element, id, class, attribute, pseudo-class, pseudo-element".

(** Lines 134-135, run once when the module is loaded: two [Error]
    objects are created and stored in static properties. *)
Definition load : M (loc * loc) :=
  let* q := alloc (OError quantityError_message) in
  let* o := alloc (OError orderError_message) in
  ret (q, o).

(** The static properties [Selector.quantityError] and
    [Selector.orderError] hold the references [load] returns on the empty
    store, see [load_statics]. *)
Definition quantityError : loc := 0.
Definition orderError : loc := 1.

End Selector.

(** The store once the module is loaded. *)
Definition loaded : Store := final Selector.load nil.

(* ================================================================== *)
(** ** cssSelectorBuilder (lines 137-235) *)
(* ================================================================== *)

(** What [this] is bound to in a call: the facade object
    [cssSelectorBuilder] itself (or anything else that is not a
    [Selector]), or a reference. *)
Inductive receiver :=
| Facade
| Ref (l : loc).

(** [this instanceof Selector ? this : new Selector()]. *)
Definition this_or_new (this : receiver) : M loc := fun st =>
  match this with
  | Ref l =>
      match st !! l with
      | Some (OSelector _) => (Return l, st)
      | _ => Selector.new None st
      end
  | Facade => Selector.new None st
  end.

(** [selector.present.<kind>]. *)
Definition get_present (l : loc) (flag : Present.t -> bool) : M bool :=
  let* s := read l in ret (flag (Fields.present s)).

(** [selector.selector]. *)
Definition get_selector (l : loc) : M string :=
  let* s := read l in ret (Fields.selector s).

Module cssSelectorBuilder.

Definition element (this : receiver) (value : string) : M loc :=
  let* selector := this_or_new this in
  let* dup := get_present selector Present.element in
  if dup then throw Selector.quantityError else
  let* str := Selector.toString selector in
  if negb (String.eqb str "") then throw Selector.orderError else
  assign selector (Fields.set_selector value);;
  assign selector (Fields.set_present Present.set_element);;
  ret selector.

Definition id (this : receiver) (value : string) : M loc :=
  let* selector := this_or_new this in
  let* dup := get_present selector Present.id in
  if dup then throw Selector.quantityError else
  let* pe := get_present selector Present.pseudoElement in
  let* cl := (if pe then ret true else get_present selector Present.class) in
  if cl then throw Selector.orderError else
  let* old := get_selector selector in
  assign selector (Fields.set_selector (old ++ "#" ++ value));;
  assign selector (Fields.set_present Present.set_id);;
  ret selector.

Definition class (this : receiver) (value : string) : M loc :=
  let* selector := this_or_new this in
  let* at_ := get_present selector Present.attr in
  if at_ then throw Selector.orderError else
  let* old := get_selector selector in
  assign selector (Fields.set_selector (old ++ "." ++ value));;
  assign selector (Fields.set_present Present.set_class);;
  ret selector.

Definition attr (this : receiver) (value : string) : M loc :=
  let* selector := this_or_new this in
  let* pc := get_present selector Present.pseudoClass in
  if pc then throw Selector.orderError else
  let* old := get_selector selector in
  assign selector (Fields.set_selector (old ++ "[" ++ value ++ "]"));;
  assign selector (Fields.set_present Present.set_attr);;
  ret selector.

Definition pseudoClass (this : receiver) (value : string) : M loc :=
  let* selector := this_or_new this in
  let* pe := get_present selector Present.pseudoElement in
  if pe then throw Selector.orderError else
  let* old := get_selector selector in
  assign selector (Fields.set_selector (old ++ ":" ++ value));;
  assign selector (Fields.set_present Present.set_pseudoClass);;
  ret selector.

Definition pseudoElement (this : receiver) (value : string) : M loc :=
  let* selector := this_or_new this in
  let* dup := get_present selector Present.pseudoElement in
  if dup then throw Selector.quantityError else
  let* cl := get_present selector Present.class in
  if cl then throw Selector.orderError else
  let* old := get_selector selector in
  assign selector (Fields.set_selector (old ++ "::" ++ value));;
  assign selector (Fields.set_present Present.set_pseudoElement);;
  ret selector.

(** The template literal converts both operands with [toString], left
    to right. Operands that are not [Selector] instances are not
    modelled: the call ends [Wrong]. *)
Definition combine (selector1 : loc) (combinator : string) (selector2 : loc) : M loc :=
  let* s1 := Selector.toString selector1 in
  let* s2 := Selector.toString selector2 in
  Selector.new (Some (s1 ++ " " ++ combinator ++ " " ++ s2)).

End cssSelectorBuilder.

(** The six fragment kinds, in canonical order. *)
Inductive Kind := Element | Id | Class | Attr | PseudoClass | PseudoElement.

#[export] Instance Kind_eq_dec : EqDecision Kind.
Proof. solve_decision. Defined.

(** Lines 233-235 copy the facade's methods to [Selector.prototype], so
    the same six functions are called on the facade (starting a chain) and
    on a [Selector] (continuing one). *)
Definition invoke (k : Kind) : receiver -> string -> M loc :=
  match k with
  | Element => cssSelectorBuilder.element
  | Id => cssSelectorBuilder.id
  | Class => cssSelectorBuilder.class
  | Attr => cssSelectorBuilder.attr
  | PseudoClass => cssSelectorBuilder.pseudoClass
  | PseudoElement => cssSelectorBuilder.pseudoElement
  end.

(* ================================================================== *)
(** ** The operation table *)
(* ================================================================== *)

(** These definitions follow the table of the specification, column by
    column; [invoke_Ref] compares the methods with them. *)

Definition has (k : Kind) (p : Present.t) : bool :=
  match k with
  | Element => Present.element p
  | Id => Present.id p
  | Class => Present.class p
  | Attr => Present.attr p
  | PseudoClass => Present.pseudoClass p
  | PseudoElement => Present.pseudoElement p
  end.

Definition mark (k : Kind) : Present.t -> Present.t :=
  match k with
  | Element => Present.set_element
  | Id => Present.set_id
  | Class => Present.set_class
  | Attr => Present.set_attr
  | PseudoClass => Present.set_pseudoClass
  | PseudoElement => Present.set_pseudoElement
  end.

(** Column "Appends". *)
Definition fragment (k : Kind) (v : string) : string :=
  match k with
  | Element => v
  | Id => "#" ++ v
  | Class => "." ++ v
  | Attr => "[" ++ v ++ "]"
  | PseudoClass => ":" ++ v
  | PseudoElement => "::" ++ v
  end.

(** Column "Cardinality limit". *)
Definition at_most_once (k : Kind) : bool :=
  match k with
  | Element | Id | PseudoElement => true
  | Class | Attr | PseudoClass => false
  end.

Definition duplicate (k : Kind) (s : Fields.t) : bool :=
  at_most_once k && has k (Fields.present s).

(** Column "Ordering precondition", negated. *)
Definition out_of_order (k : Kind) (s : Fields.t) : bool :=
  match k with
  | Element => negb (String.eqb (Fields.selector s) "")
  | Id => Present.pseudoElement (Fields.present s) || Present.class (Fields.present s)
  | Class => Present.attr (Fields.present s)
  | Attr => Present.pseudoClass (Fields.present s)
  | PseudoClass => Present.pseudoElement (Fields.present s)
  | PseudoElement => Present.class (Fields.present s)
  end.

(** The instance after a successful append. *)
Definition appended (k : Kind) (v : string) (s : Fields.t) : Fields.t :=
  {| Fields.selector := Fields.selector s ++ fragment k v;
     Fields.present := mark k (Fields.present s) |}.

(** A [Selector] as the constructor leaves it when called without
    argument. *)
Definition fresh : Fields.t :=
  {| Fields.selector := ""; Fields.present := Present.empty |}.

(** [this instanceof Selector], as a predicate on the store. *)
Definition is_Selector (st : Store) (this : receiver) : bool :=
  match this with
  | Ref l => match st !! l with Some (OSelector _) => true | _ => false end
  | Facade => false
  end.

(** The instance a call works on: the receiver when it is a [Selector],
    a new one otherwise. *)
Definition target (st : Store) (this : receiver) : Fields.t :=
  match this with
  | Ref l => match st !! l with Some (OSelector s) => s | _ => fresh end
  | Facade => fresh
  end.

(* ================================================================== *)
(** ** Chains and histories of calls *)
(* ================================================================== *)

(** A fluent chain [this.k1(v1).k2(v2)...]: each call is made on what the
    previous one returned, and a [throw] ends the chain. *)
Fixpoint chain (this : receiver) (ops : list (Kind * string)) : M receiver :=
  match ops with
  | [] => ret this
  | (k, v) :: ops' => let* l := invoke k this v in chain (Ref l) ops'
  end.

(** [chain] followed by [stringify()]; the facade itself has no
    [stringify]. *)
Definition build (ops : list (Kind * string)) : M string :=
  let* r := chain Facade ops in
  match r with
  | Ref l => Selector.stringify l
  | Facade => fun st => (Wrong, st)
  end.

(** The calls a client can make. *)
Inductive call :=
| Append (k : Kind) (this : receiver) (v : string)
| Combine (selector1 : loc) (combinator : string) (selector2 : loc)
| Stringify (this : loc).

(** The store after a call, whether it returned or threw (a client may
    catch the exception and go on). *)
Definition perform (c : call) (st : Store) : Store :=
  match c with
  | Append k this v => final (invoke k this v) st
  | Combine l1 c l2 => final (cssSelectorBuilder.combine l1 c l2) st
  | Stringify l => final (Selector.stringify l) st
  end.

Definition perform_all (cs : list call) (st : Store) : Store :=
  fold_left (fun st c => perform c st) cs st.

(** The messages of the [Error] objects of a store, in creation order. *)
Definition errors (st : Store) : list string :=
  omap (fun o => match o with OError m => Some m | OSelector _ => None end) st.

(** The table read as a transition function on one instance: [None] when
    the call throws. *)
Definition step (s : Fields.t) (op : Kind * string) : option Fields.t :=
  if duplicate op.1 s || out_of_order op.1 s then None
  else Some (appended op.1 op.2 s).

Fixpoint steps (s : Fields.t) (ops : list (Kind * string)) : option Fields.t :=
  match ops with
  | [] => Some s
  | op :: ops' =>
      match step s op with
      | Some s' => steps s' ops'
      | None => None
      end
  end.

(** The formatted fragments of a list of appends, concatenated in append
    order. *)
Fixpoint rendered (ops : list (Kind * string)) : string :=
  match ops with
  | [] => ""
  | (k, v) :: ops' => fragment k v ++ rendered ops'
  end.

(** A selector written in canonical order: each part optional, classes,
    attributes and pseudo-classes any number of times. *)
Record parts := {
  the_element : option string;
  the_id : option string;
  classes : list string;
  attrs : list string;
  pseudoClasses : list string;
  the_pseudoElement : option string
}.

Definition once (k : Kind) (o : option string) : list (Kind * string) :=
  match o with Some v => [(k, v)] | None => [] end.

Definition many (k : Kind) (vs : list string) : list (Kind * string) :=
  map (pair k) vs.
Arguments many : simpl never.

Definition in_order (p : parts) : list (Kind * string) :=
  (once Element (the_element p) ++ once Id (the_id p) ++
   many Class (classes p) ++ many Attr (attrs p) ++
   many PseudoClass (pseudoClasses p) ++
   once PseudoElement (the_pseudoElement p))%list.

(** The kinds that occur in such a selector. *)
Definition flags_of (p : parts) : Present.t :=
  {| Present.element := bool_decide (is_Some (the_element p));
     Present.id := bool_decide (is_Some (the_id p));
     Present.class := negb (bool_decide (classes p = []));
     Present.attr := negb (bool_decide (attrs p = []));
     Present.pseudoClass := negb (bool_decide (pseudoClasses p = []));
     Present.pseudoElement := bool_decide (is_Some (the_pseudoElement p)) |}.

(** The one combination in canonical order that the methods reject: a
    class together with a pseudo-element. *)
Definition class_and_pseudoElement (p : parts) : bool :=
  match classes p, the_pseudoElement p with
  | _ :: _, Some _ => true
  | _, _ => false
  end.

(** The position of a kind in the canonical order. *)
Definition rank (k : Kind) : nat :=
  match k with
  | Element => 0 | Id => 1 | Class => 2
  | Attr => 3 | PseudoClass => 4 | PseudoElement => 5
  end.

(** The pairs (later kind, earlier kind) for which the earlier kind is
    still accepted after the later one. *)
Definition accepted_after (later earlier : Kind) : bool :=
  match later, earlier with
  | Attr, Id | PseudoClass, Id
  | PseudoClass, Class | PseudoElement, Class
  | PseudoElement, Attr => true
  | _, _ => false
  end.

(** Whether a call is a fragment-appending call made on the object at
    [l]. *)
Definition receiver_is (l : loc) (c : call) : bool :=
  match c with
  | Append _ (Ref l') _ => bool_decide (l' = l)
  | _ => false
  end.

(** The error, if any, with which the table answers an append of kind
    [k] on an instance. *)
Definition verdict (k : Kind) (s : Fields.t) : option loc :=
  if duplicate k s then Some Selector.quantityError
  else if out_of_order k s then Some Selector.orderError
  else None.

(** How often a kind occurs in a list of appends. *)
Fixpoint occurrences (k : Kind) (ops : list (Kind * string)) : nat :=
  match ops with
  | [] => 0
  | op :: ops' => (if bool_decide (op.1 = k) then 1 else 0) + occurrences k ops'
  end.

(* ================================================================== *)
(** ** getJSON and fromJSON (lines 44-62) *)
(* ================================================================== *)

Section JSON.

(** Property values, the functions found on a prototype, and what such a
    function returns. *)
Variables (Data Method Output : Type).

(** An object: its own data properties and its prototype, a table of
    methods. *)
Record Object := {
  own : list (string * Data);
  proto : list (string * Method)
}.

(** Calling a function with [this] bound to an object. *)
Variable apply_method : Method -> Object -> Output.

(** The built-ins [JSON.stringify] and [JSON.parse], which the module
    only calls: they are parameters here. [None] is a thrown
    [SyntaxError]; what [JSON.parse] returns is a plain object. *)
Variable JSON_stringify : Object -> string.
Variable JSON_parse : string -> option Object.

Definition getJSON (obj : Object) : string := JSON_stringify obj.

(** [Object.setPrototypeOf(o, proto)] replaces the prototype and returns
    the object. *)
Definition setPrototypeOf (o : Object) (p : list (string * Method)) : Object :=
  {| own := own o; proto := p |}.

Definition fromJSON (p : list (string * Method)) (json : string) : option Object :=
  match JSON_parse json with
  | Some o => Some (setPrototypeOf o p)
  | None => None
  end.

Fixpoint property {A : Type} (name : string) (ps : list (string * A)) : option A :=
  match ps with
  | [] => None
  | (n, a) :: ps' => if String.eqb n name then Some a else property name ps'
  end.

(** [o.name()]: an own property shadows the prototype and, being data,
    cannot be called; otherwise the prototype's function runs on [o]. *)
Definition call_method (o : Object) (name : string) : option Output :=
  match property name (own o) with
  | Some _ => None
  | None =>
      match property name (proto o) with
      | Some f => Some (apply_method f o)
      | None => None
      end
  end.

(** The own data fields of [value] survive the textual encoding. *)
Definition survives (value : Object) : Prop :=
  exists o, JSON_parse (JSON_stringify value) = Some o /\ own o = own value.

End JSON.

Arguments own {Data Method} o.
Arguments proto {Data Method} o.
Arguments getJSON {Data Method} JSON_stringify obj.
Arguments fromJSON {Data Method} JSON_parse p json.
Arguments call_method {Data Method Output} apply_method o name.
Arguments setPrototypeOf {Data Method} o p.
Arguments survives {Data Method} JSON_stringify JSON_parse value.

Module FlatJSON.

(** A codec for flat objects whose fields are natural numbers, written
    as [{"width":10,"height":20}]: an instance of the two built-ins at
    which the round trip can be run. *)

Definition quote : Ascii.ascii := Ascii.ascii_of_nat 34.

(** A number in decimal. *)
Definition decimal (n : nat) : string := NilEmpty.string_of_uint (Nat.to_uint n).

Definition field (k : string) (n : nat) : string :=
  String quote (k ++ String quote (":" ++ decimal n)).

Fixpoint fields (fs : list (string * nat)) : string :=
  match fs with
  | [] => ""
  | [(k, n)] => field k n
  | (k, n) :: fs' => field k n ++ "," ++ fields fs'
  end.

Definition stringify (o : Object nat (list (string * nat) -> nat)) : string :=
  "{" ++ fields (own o) ++ "}".

Fixpoint until_quote (s : string) : option (string * string) :=
  match s with
  | EmptyString => None
  | String c s' =>
      if Ascii.eqb c quote then Some (EmptyString, s')
      else match until_quote s' with
           | Some (k, r) => Some (String c k, r)
           | None => None
           end
  end.

Definition digit (c : Ascii.ascii) : option nat :=
  let n := Ascii.nat_of_ascii c in
  if Nat.leb 48 n && Nat.leb n 57 then Some (n - 48) else None.

Fixpoint number (acc : nat) (s : string) : nat * string :=
  match s with
  | EmptyString => (acc, EmptyString)
  | String c s' =>
      match digit c with
      | Some d => number (10 * acc + d) s'
      | None => (acc, s)
      end
  end.

Fixpoint parse_fields (fuel : nat) (s : string) : option (list (string * nat)) :=
  match fuel, s with
  | S fuel', String c s1 =>
      if negb (Ascii.eqb c quote) then None else
      match until_quote s1 with
      | Some (k, String ":" (String d s2)) =>
          match digit d with
          | None => None
          | Some _ =>
              match number 0 (String d s2) with
              | (n, String "," s3) =>
                  match parse_fields fuel' s3 with
                  | Some fs => Some ((k, n) :: fs)
                  | None => None
                  end
              | (n, String "}" EmptyString) => Some [(k, n)]
              | _ => None
              end
          end
      | _ => None
      end
  | _, _ => None
  end.

Definition parse (s : string) : option (Object nat (list (string * nat) -> nat)) :=
  match s with
  | String "{" (String "}" EmptyString) => Some {| own := []; proto := [] |}
  | String "{" s' =>
      match parse_fields (String.length s') s' with
      | Some fs => Some {| own := fs; proto := [] |}
      | None => None
      end
  | _ => None
  end.

(** Keys that are written between quotes as they are: no quote, no
    backslash, no control character. *)
Definition plain_char (c : Ascii.ascii) : bool :=
  negb (Ascii.eqb c quote) && negb (Ascii.eqb c (Ascii.ascii_of_nat 92)) &&
  Nat.leb 32 (Ascii.nat_of_ascii c).

Fixpoint plain (s : string) : bool :=
  match s with
  | EmptyString => true
  | String c s' => plain_char c && plain s'
  end.

Definition plain_keys (fs : list (string * nat)) : bool :=
  forallb (fun f => plain f.1) fs.

Definition no_digit_first (s : string) : bool :=
  match s with
  | EmptyString => true
  | String c _ => match digit c with None => true | Some _ => false end
  end.

(** A shape with one method, the product of two fields. *)
Definition getArea (this : list (string * nat)) : nat :=
  match property "width" this, property "height" this with
  | Some w, Some h => w * h
  | _, _ => 0
  end.

Definition shape : list (string * (list (string * nat) -> nat)) :=
  [("getArea", getArea)].

Definition value : Object nat (list (string * nat) -> nat) :=
  {| own := [("width", 10); ("height", 20)]; proto := shape |}.

End FlatJSON.

(* ================================================================== *)
(** ** Rectangle: properties *)
(* ================================================================== *)

(** C10: for all numbers [width] and [height], [Rectangle width height]
    exposes [width] and [height] unchanged and its area accessor returns
    their product; at 10 and 20 these are 10, 20 and 200. *)
Theorem Rectangle_fields_and_area :
  (forall width height : number,
      Rectangle.width (Rectangle width height) = width /\
      Rectangle.height (Rectangle width height) = height /\
      Rectangle.getArea (Rectangle width height) tt = times width height) /\
  Rectangle.width (Rectangle (literal 10) (literal 20)) = literal 10 /\
  Rectangle.height (Rectangle (literal 10) (literal 20)) = literal 20 /\
  Rectangle.getArea (Rectangle (literal 10) (literal 20)) tt = literal 200.
Proof.
  split.
  - intros width height. split; [|split]; reflexivity.
  - split; [|split]; [reflexivity..|]. vm_compute. reflexivity.
Qed.

(* ================================================================== *)
(** ** Running the methods *)
(* ================================================================== *)

Lemma lookup_assigned (st : Store) l s s' :
  st !! l = Some (OSelector s) ->
  <[l := OSelector s']> st !! l = Some (OSelector s').
Proof.
  intros H. apply list_lookup_insert_eq. by apply lookup_lt_Some in H.
Qed.

Lemma lookup_alloc (st : Store) o : (st ++ [o])%list !! length st = Some o.
Proof. by rewrite list_lookup_middle. Qed.

Lemma insert_alloc (st : Store) o o' :
  <[length st := o']> (st ++ [o])%list = (st ++ [o'])%list.
Proof.
  replace (length st) with (length st + 0) by lia.
  by rewrite insert_app_r.
Qed.

(** Unfolds a method body down to store lookups and updates. *)
Ltac unfold_method :=
  unfold invoke, cssSelectorBuilder.element, cssSelectorBuilder.id,
    cssSelectorBuilder.class, cssSelectorBuilder.attr,
    cssSelectorBuilder.pseudoClass, cssSelectorBuilder.pseudoElement,
    Selector.toString, Selector.stringify, get_present, get_selector,
    this_or_new, bind, ret, throw, read, assign.

(** Runs an unfolded method body on a store in which [H] gives the
    receiver, deciding each test as it is met. *)
Ltac step_method H :=
  repeat first
    [ progress rewrite ?H, ?(lookup_assigned _ _ _ _ H)
    | progress cbn
    | match goal with
      | |- context [if ?b then _ else _] => is_var b; destruct b
      | |- context [String.eqb ?t ""] => is_var t; destruct t
      end ].

(** A method called on a [Selector] does what its row of the table says:
    the quantity check comes first, then the ordering check, then the
    append. *)
Lemma invoke_Ref k l v (st : Store) s :
  st !! l = Some (OSelector s) ->
  invoke k (Ref l) v st =
    if duplicate k s then (Throw Selector.quantityError, st)
    else if out_of_order k s then (Throw Selector.orderError, st)
    else (Return l, <[l := OSelector (appended k v s)]> st).
Proof.
  intros H. destruct s as [text [e i c a pc pe]].
  destruct k; unfold_method; step_method H; try reflexivity.
  all: by rewrite list_insert_insert_eq.
Qed.

(** Called on anything else, a method first allocates a [Selector] and
    then runs on it. *)
Lemma invoke_not_Selector k this v (st : Store) :
  is_Selector st this = false ->
  invoke k this v st =
    invoke k (Ref (length st)) v (st ++ [OSelector fresh])%list.
Proof.
  intros H.
  assert (Hnew : this_or_new this st =
                 (Return (length st), (st ++ [OSelector fresh])%list)).
  { unfold this_or_new, is_Selector in *. destruct this as [|l]; [done|].
    by destruct (st !! l) as [[]|]. }
  assert (Hold : this_or_new (Ref (length st)) (st ++ [OSelector fresh])%list =
                 (Return (length st), (st ++ [OSelector fresh])%list)).
  { unfold this_or_new. by rewrite lookup_alloc. }
  destruct k; unfold invoke, cssSelectorBuilder.element, cssSelectorBuilder.id,
    cssSelectorBuilder.class, cssSelectorBuilder.attr,
    cssSelectorBuilder.pseudoClass, cssSelectorBuilder.pseudoElement, bind;
    by rewrite Hnew, Hold.
Qed.

Lemma invoke_fresh k this v (st : Store) :
  is_Selector st this = false ->
  invoke k this v st =
    (Return (length st), (st ++ [OSelector (appended k v fresh)])%list).
Proof.
  intros H. rewrite (invoke_not_Selector _ _ _ _ H).
  rewrite (invoke_Ref k _ v _ fresh (lookup_alloc st _)).
  replace (duplicate k fresh) with false by by destruct k.
  replace (out_of_order k fresh) with false by by destruct k.
  by rewrite insert_alloc.
Qed.

Lemma is_Selector_lookup (st : Store) this :
  is_Selector st this = true ->
  exists l, this = Ref l /\ st !! l = Some (OSelector (target st this)).
Proof.
  destruct this as [|l]; cbn; [done|].
  destruct (st !! l) as [[s|]|] eqn:E; try done. by exists l.
Qed.

Lemma duplicate_fresh k : duplicate k fresh = false.
Proof. by destruct k. Qed.

Lemma out_of_order_fresh k : out_of_order k fresh = false.
Proof. by destruct k. Qed.

(** Both cases of the receiver at once. *)
Lemma invoke_cases k this v (st : Store) :
  (duplicate k (target st this) = true /\
   invoke k this v st = (Throw Selector.quantityError, st)) \/
  (duplicate k (target st this) = false /\
   out_of_order k (target st this) = true /\
   invoke k this v st = (Throw Selector.orderError, st)) \/
  (duplicate k (target st this) = false /\
   out_of_order k (target st this) = false /\
   exists l st', invoke k this v st = (Return l, st') /\
     st' !! l = Some (OSelector (appended k v (target st this)))).
Proof.
  destruct (is_Selector st this) eqn:Hs.
  - destruct (is_Selector_lookup _ _ Hs) as (l & -> & Hl).
    rewrite (invoke_Ref k l v st _ Hl).
    destruct (duplicate k _); [by left|].
    destruct (out_of_order k _); [right; by left|].
    right; right. repeat split. eexists _, _. split; [done|].
    by eapply lookup_assigned.
  - rewrite (invoke_fresh _ _ _ _ Hs).
    assert (Ht : target st this = fresh).
    { destruct this as [|l]; cbn in *; [done|]. by destruct (st !! l) as [[]|]. }
    rewrite Ht, duplicate_fresh, out_of_order_fresh.
    right; right. repeat split. eexists _, _. split; [done|].
    apply lookup_alloc.
Qed.

(** The methods never get stuck on a reference. *)
Lemma invoke_never_Wrong k this v (st : Store) :
  result (invoke k this v) st <> Wrong.
Proof.
  unfold result.
  destruct (invoke_cases k this v st) as [[_ ->]|[(_ & _ & ->)|(_ & _ & l & st' & -> & _)]];
    discriminate.
Qed.

(** Loading the module creates the two [Error] objects the static
    properties refer to. *)
Lemma load_statics :
  Selector.load [] = (Return (Selector.quantityError, Selector.orderError), loaded).
Proof. reflexivity. Qed.

(** What [selector || ''] evaluates to for a string. *)
Lemma or_empty (s : string) : (if String.eqb s "" then "" else s) = s.
Proof. by destruct s. Qed.

Lemma combine_Selectors (st : Store) l1 c l2 s1 s2 :
  st !! l1 = Some (OSelector s1) ->
  st !! l2 = Some (OSelector s2) ->
  cssSelectorBuilder.combine l1 c l2 st =
    (Return (length st),
     (st ++ [OSelector
        {| Fields.selector := Fields.selector s1 ++ " " ++ c ++ " " ++ Fields.selector s2;
           Fields.present := Present.empty |}])%list).
Proof.
  intros H1 H2.
  unfold cssSelectorBuilder.combine, Selector.toString, Selector.new, bind, ret, read, alloc.
  by rewrite H1, H2, or_empty.
Qed.

(** A call either leaves the store as it is, updates one [Selector] by an
    append, or allocates one [Selector]. *)
Lemma perform_cases c (st : Store) :
  perform c st = st \/
  (exists l s k v, st !! l = Some (OSelector s) /\
     perform c st = <[l := OSelector (appended k v s)]> st) \/
  (exists s, perform c st = (st ++ [OSelector s])%list).
Proof.
  destruct c as [k this v|l1 c l2|l]; cbn; unfold final.
  - destruct (is_Selector st this) eqn:Hs.
    + destruct (is_Selector_lookup _ _ Hs) as (l & -> & Hl).
      rewrite (invoke_Ref k l v st _ Hl).
      destruct (duplicate k _); [by left|].
      destruct (out_of_order k _); [by left|].
      right; left. by eexists _, _, _, _.
    + rewrite (invoke_fresh _ _ _ _ Hs). right; right. by eexists.
  - unfold cssSelectorBuilder.combine, Selector.toString, Selector.new, bind, ret, read, alloc.
    destruct (st !! l1) as [[s1|]|]; try by left.
    destruct (st !! l2) as [[s2|]|]; try by left.
    right; right. by eexists.
  - unfold Selector.stringify, bind, ret, read.
    destruct (st !! l) as [[s|]|]; by left.
Qed.

(** Presence flags are never cleared. *)
Lemma has_appended k k' v s :
  has k (Fields.present s) = true ->
  has k (Fields.present (appended k' v s)) = true.
Proof. destruct s as [text []]. by destruct k, k'; cbn; intros ->. Qed.

Lemma has_appended_same k v s : has k (Fields.present (appended k v s)) = true.
Proof. destruct s as [text []]. by destruct k. Qed.

Lemma perform_keeps_flag c (st : Store) l s k :
  st !! l = Some (OSelector s) ->
  has k (Fields.present s) = true ->
  exists s', perform c st !! l = Some (OSelector s') /\
             has k (Fields.present s') = true.
Proof.
  intros Hl Hk.
  destruct (perform_cases c st) as [->|[(l' & s0 & k' & v & Hl' & ->)|(s0 & ->)]].
  - by exists s.
  - destruct (decide (l' = l)) as [->|Hne].
    + rewrite Hl in Hl'. injection Hl' as <-.
      eexists. split; [by eapply lookup_assigned|]. by apply has_appended.
    + exists s. by rewrite list_lookup_insert_ne.
  - exists s. split; [|done]. by apply lookup_app_l_Some.
Qed.

Lemma perform_all_keeps_flag cs (st : Store) l s k :
  st !! l = Some (OSelector s) ->
  has k (Fields.present s) = true ->
  exists s', perform_all cs st !! l = Some (OSelector s') /\
             has k (Fields.present s') = true.
Proof.
  revert st s. induction cs as [|c cs IH]; intros st s Hl Hk; cbn.
  - by exists s.
  - destruct (perform_keeps_flag c st l s k Hl Hk) as (s' & Hl' & Hk').
    by apply (IH _ s').
Qed.

(** No call creates or changes an [Error] object. *)
Lemma perform_keeps_Error c (st : Store) l m :
  st !! l = Some (OError m) -> perform c st !! l = Some (OError m).
Proof.
  intros Hl.
  destruct (perform_cases c st) as [->|[(l' & s0 & k' & v & Hl' & ->)|(s0 & ->)]].
  - done.
  - rewrite list_lookup_insert_ne; [done|]. intros ->. congruence.
  - by apply lookup_app_l_Some.
Qed.

Lemma errors_app (st st' : Store) : errors (st ++ st') = (errors st ++ errors st')%list.
Proof. apply omap_app. Qed.

Lemma errors_assign (st : Store) l s s' :
  st !! l = Some (OSelector s) ->
  errors (<[l := OSelector s']> st) = errors st.
Proof.
  revert l. induction st as [|o st IH]; intros [|l] H; cbn in *; try done.
  - by injection H as ->.
  - specialize (IH l H). unfold errors in *. cbn.
    destruct o; [exact IH | f_equal; exact IH].
Qed.

Lemma perform_errors c (st : Store) : errors (perform c st) = errors st.
Proof.
  destruct (perform_cases c st) as [->|[(l' & s0 & k' & v & Hl' & ->)|(s0 & ->)]].
  - done.
  - by eapply errors_assign.
  - rewrite errors_app. cbn. by rewrite app_nil_r.
Qed.

Lemma string_app_assoc (a b c : string) : (a ++ b) ++ c = a ++ (b ++ c).
Proof. induction a as [|x a IH]; cbn; [done|]. by rewrite IH. Qed.

Lemma string_app_empty_r (a : string) : a ++ "" = a.
Proof. induction a as [|x a IH]; cbn; [done|]. by rewrite IH. Qed.

Lemma steps_app s ops1 ops2 :
  steps s (ops1 ++ ops2) =
    match steps s ops1 with Some s' => steps s' ops2 | None => None end.
Proof.
  revert s. induction ops1 as [|op ops1 IH]; intros s; cbn; [done|].
  destruct (step s op); [apply IH|done].
Qed.

Lemma steps_selector s ops s' :
  steps s ops = Some s' ->
  Fields.selector s' = Fields.selector s ++ rendered ops.
Proof.
  revert s. induction ops as [|[k v] ops IH]; intros s; cbn.
  - intros [= <-]. by rewrite string_app_empty_r.
  - unfold step. cbn. destruct (duplicate k s || out_of_order k s); [done|].
    intros H. rewrite (IH _ H). cbn. by rewrite string_app_assoc.
Qed.

Lemma has_mark k k' p : has k (mark k' p) = bool_decide (k = k') || has k p.
Proof. destruct p. by destruct k, k'. Qed.

(** On one instance, the flag of a kind is set exactly when a fragment of
    that kind has been appended to it. *)
Lemma steps_flags s ops s' k :
  steps s ops = Some s' ->
  has k (Fields.present s') =
    has k (Fields.present s) || bool_decide (k ∈ ops.*1).
Proof.
  revert s. induction ops as [|[k' v] ops IH]; intros s; cbn.
  - intros [= <-]. by rewrite orb_false_r.
  - unfold step. cbn. destruct (duplicate k' s || out_of_order k' s); [done|].
    intros H. rewrite (IH _ H). cbn [appended Fields.present]. rewrite has_mark.
    destruct (decide (k = k')) as [->|Hne].
    + rewrite (bool_decide_eq_true_2 (k' = k')) by done.
      rewrite (bool_decide_eq_true_2 (k' ∈ k' :: ops.*1)) by (apply elem_of_cons; by left).
      by rewrite orb_true_r.
    + rewrite (bool_decide_eq_false_2 (k = k')) by done. cbn.
      f_equal. apply bool_decide_ext. rewrite elem_of_cons.
      split; [by right|]. by intros [?|?].
Qed.

Lemma invoke_step k l v (st : Store) s s' :
  st !! l = Some (OSelector s) ->
  step s (k, v) = Some s' ->
  invoke k (Ref l) v st = (Return l, <[l := OSelector s']> st).
Proof.
  intros Hl. unfold step. cbn. rewrite (invoke_Ref k l v st s Hl).
  destruct (duplicate k s); [done|]. destruct (out_of_order k s); [done|].
  by intros [= <-].
Qed.

Lemma invoke_step_None k l v (st : Store) s :
  st !! l = Some (OSelector s) ->
  step s (k, v) = None ->
  exists e, invoke k (Ref l) v st = (Throw e, st).
Proof.
  intros Hl. unfold step. cbn. rewrite (invoke_Ref k l v st s Hl).
  destruct (duplicate k s); [by eexists|].
  destruct (out_of_order k s); [by eexists|done].
Qed.

(** A chain continued on a [Selector] runs [steps] on it. *)
Lemma chain_Ref l ops (st : Store) s s' :
  st !! l = Some (OSelector s) ->
  steps s ops = Some s' ->
  chain (Ref l) ops st = (Return (Ref l), <[l := OSelector s']> st).
Proof.
  revert st s. induction ops as [|[k v] ops IH]; intros st s Hl; cbn.
  - intros [= <-]. unfold ret. by rewrite list_insert_id.
  - destruct (step s (k, v)) as [s1|] eqn:E; [|done]. intros H.
    unfold bind. rewrite (invoke_step k l v st s s1 Hl E).
    rewrite (IH _ s1 (lookup_assigned _ _ _ _ Hl) H).
    by rewrite list_insert_insert_eq.
Qed.

(** A chain that [steps] rejects ends in a [throw]. *)
Lemma chain_Ref_None l ops (st : Store) s :
  st !! l = Some (OSelector s) ->
  steps s ops = None ->
  exists e st', chain (Ref l) ops st = (Throw e, st').
Proof.
  revert st s. induction ops as [|[k v] ops IH]; intros st s Hl; cbn; [done|].
  destruct (step s (k, v)) as [s1|] eqn:E; intros H; unfold bind.
  - rewrite (invoke_step k l v st s s1 Hl E).
    apply (IH _ s1 (lookup_assigned _ _ _ _ Hl) H).
  - destruct (invoke_step_None k l v st s Hl E) as [e ->]. by eexists _, _.
Qed.

(** A chain started on the facade creates a [Selector] and runs [steps]
    on it. *)
Lemma chain_Facade op ops (st : Store) s' :
  steps fresh (op :: ops) = Some s' ->
  chain Facade (op :: ops) st =
    (Return (Ref (length st)), (st ++ [OSelector s'])%list).
Proof.
  destruct op as [k v]. intros H. cbn [chain]. unfold bind.
  rewrite (invoke_not_Selector k Facade v st eq_refl).
  change (chain (Ref (length st)) ((k, v) :: ops) (st ++ [OSelector fresh])%list =
          (Return (Ref (length st)), (st ++ [OSelector s'])%list)).
  rewrite (chain_Ref _ _ _ fresh s' (lookup_alloc st _) H).
  by rewrite insert_alloc.
Qed.

Lemma chain_Facade_None op ops (st : Store) :
  steps fresh (op :: ops) = None ->
  exists e st', chain Facade (op :: ops) st = (Throw e, st').
Proof.
  destruct op as [k v]. intros H. cbn [chain]. unfold bind.
  rewrite (invoke_not_Selector k Facade v st eq_refl).
  apply (chain_Ref_None (length st) ((k, v) :: ops) _ fresh (lookup_alloc st _) H).
Qed.

(** Building and stringifying a chain that [steps] accepts yields the
    concatenation of its formatted fragments. *)
Lemma build_steps op ops (st : Store) s' :
  steps fresh (op :: ops) = Some s' ->
  result (build (op :: ops)) st = Return (rendered (op :: ops)).
Proof.
  intros H. unfold result, build, bind.
  rewrite (chain_Facade op ops st s' H).
  unfold Selector.stringify, bind, read, ret. rewrite lookup_alloc. cbn [fst].
  by rewrite (steps_selector _ _ _ H).
Qed.

Lemma mark_idempotent k p : mark k (mark k p) = mark k p.
Proof. destruct p. by destruct k. Qed.

Lemma out_of_order_repeat k v s :
  at_most_once k = false ->
  out_of_order k (appended k v s) = out_of_order k s.
Proof. destruct s as [text []]. by destruct k. Qed.

(** A repeatable kind can be appended any number of times in a row. *)
Lemma steps_many k vs s :
  at_most_once k = false ->
  out_of_order k s = false ->
  steps s (many k vs) =
    Some {| Fields.selector := Fields.selector s ++ rendered (many k vs);
            Fields.present :=
              match vs with
              | [] => Fields.present s
              | _ :: _ => mark k (Fields.present s)
              end |}.
Proof.
  intros Hk. unfold many.
  revert s. induction vs as [|v vs IH]; intros s Ho; cbn.
  - destruct s. cbn. by rewrite string_app_empty_r.
  - unfold step, duplicate. cbn. rewrite Hk, Ho. cbn.
    rewrite IH by by rewrite out_of_order_repeat.
    cbn. rewrite string_app_assoc. f_equal. f_equal.
    destruct vs; [done|apply mark_idempotent].
Qed.

(** Which selectors in canonical order the methods accept, and the
    flags they leave. *)
Lemma steps_in_order p :
  if class_and_pseudoElement p then steps fresh (in_order p) = None
  else exists text,
    steps fresh (in_order p) =
      Some {| Fields.selector := text; Fields.present := flags_of p |}.
Proof.
  destruct p as [e i cs ats pcs pe].
  unfold in_order, class_and_pseudoElement, flags_of.
  cbn [the_element the_id classes attrs pseudoClasses the_pseudoElement].
  rewrite steps_app.
  destruct e as [e|], i as [i|]; cbn.
  all: rewrite steps_app, (steps_many Class) by done.
  all: destruct cs as [|c cs]; cbn [Fields.selector Fields.present].
  all: rewrite steps_app, (steps_many Attr) by done.
  all: destruct ats as [|a ats]; cbn [Fields.selector Fields.present].
  all: rewrite steps_app, (steps_many PseudoClass) by done.
  all: destruct pcs as [|pc pcs]; cbn [Fields.selector Fields.present].
  all: destruct pe as [pe|]; cbn; try done; by eexists.
Qed.

Lemma chain_app this ops1 ops2 (st : Store) :
  chain this (ops1 ++ ops2) st =
    (let* r := chain this ops1 in chain r ops2) st.
Proof.
  revert this st. induction ops1 as [|[k v] ops1 IH]; intros this st; [done|].
  cbn [chain app]. unfold bind.
  destruct (invoke k this v st) as [[l|e|] st1]; [|done..].
  by rewrite IH.
Qed.

(** In a selector in canonical order that has a class and a
    pseudo-element, everything up to the pseudo-element is accepted and
    the pseudo-element raises the order error. *)
Lemma class_and_pseudoElement_order_error p (st : Store) :
  class_and_pseudoElement p = true ->
  result (build (in_order p)) st = Throw Selector.orderError.
Proof.
  destruct p as [e i cs ats pcs pe]. unfold class_and_pseudoElement. cbn.
  destruct cs as [|c cs]; [done|]. destruct pe as [pe|]; [|done]. intros _.
  pose (p' := {| the_element := e; the_id := i; classes := c :: cs;
                 attrs := ats; pseudoClasses := pcs; the_pseudoElement := None |}).
  assert (E : in_order {| the_element := e; the_id := i; classes := c :: cs;
                          attrs := ats; pseudoClasses := pcs;
                          the_pseudoElement := Some pe |}
              = (in_order p' ++ [(PseudoElement, pe)])%list).
  { unfold in_order. cbn. by rewrite !app_assoc, app_nil_r. }
  rewrite E. pose proof (steps_in_order p') as (text & H). 
  unfold result, build, bind at 1. rewrite chain_app. unfold bind at 1.
  destruct (in_order p') as [|op ops] eqn:Ep.
  { unfold p', in_order in Ep. cbn in Ep. by destruct e, i. }
  rewrite (chain_Facade op ops st _ H). cbn [chain]. unfold bind at 1.
  by rewrite (invoke_Ref PseudoElement _ pe _ _ (lookup_alloc st _)).
Qed.


(* ================================================================== *)
(** ** The examples of the source's documentation (lines 93-114) *)
(* ================================================================== *)

Example documented_id_classes :
  result (build [(Id, "main"); (Class, "container"); (Class, "editable")]) loaded
    = Return "#main.container.editable".
Proof. reflexivity. Qed.

(** The attribute value of the second example contains two double
    quotes, written here with [FlatJSON.quote]. *)
Example documented_element_attr_pseudoClass :
  let png := "href$=" ++ String FlatJSON.quote (".png" ++ String FlatJSON.quote "") in
  result (build [(Element, "a"); (Attr, png); (PseudoClass, "focus")]) loaded
    = Return ("a[" ++ png ++ "]:focus").
Proof. reflexivity. Qed.

Example documented_combine :
  result
    (let* a := cssSelectorBuilder.element Facade "div" in
     let* a := cssSelectorBuilder.id (Ref a) "main" in
     let* a := cssSelectorBuilder.class (Ref a) "container" in
     let* a := cssSelectorBuilder.class (Ref a) "draggable" in
     let* b := cssSelectorBuilder.element Facade "table" in
     let* b := cssSelectorBuilder.id (Ref b) "data" in
     let* c := cssSelectorBuilder.element Facade "tr" in
     let* c := cssSelectorBuilder.pseudoClass (Ref c) "nth-of-type(even)" in
     let* d := cssSelectorBuilder.element Facade "td" in
     let* d := cssSelectorBuilder.pseudoClass (Ref d) "nth-of-type(even)" in
     let* cd := cssSelectorBuilder.combine c " " d in
     let* bcd := cssSelectorBuilder.combine b "~" cd in
     let* abcd := cssSelectorBuilder.combine a "+" bcd in
     Selector.stringify abcd)
    loaded
  = Return "div#main.container.draggable + table#data ~ tr:nth-of-type(even)   td:nth-of-type(even)".
Proof. reflexivity. Qed.

(* ================================================================== *)
(** ** Properties of the selector builder *)
(* ================================================================== *)

(** C7: a fragment-appending call that throws leaves the whole store, and
    so the text and the presence flags of its receiver, exactly as they
    were before the call; what it throws is one of the two errors. *)
Theorem append_atomic_on_error k this v (st st' : Store) e :
  invoke k this v st = (Throw e, st') ->
  st' = st /\
  target st' this = target st this /\
  (e = Selector.quantityError \/ e = Selector.orderError).
Proof.
  intros H.
  destruct (invoke_cases k this v st)
    as [[_ E]|[(_ & _ & E)|(_ & _ & l & st1 & E & _)]];
    rewrite E in H; inversion H; subst; auto.
Qed.

Lemma append_atomic_on_error_witness :
  let st := final (cssSelectorBuilder.id Facade "main") loaded in
  invoke Id (Ref 2) "again" st = (Throw Selector.quantityError, st) /\
  target st (Ref 2) = target st (Ref 2) /\
  (Selector.quantityError = Selector.quantityError \/
   Selector.quantityError = Selector.orderError).
Proof.
  intros st. split; [reflexivity|].
  apply (append_atomic_on_error Id (Ref 2) "again" st st Selector.quantityError).
  reflexivity.
Defined.

(** C3, as stated, fails: after [element('a')] the selector is not empty,
    so the ordering precondition of [element] is violated, yet a second
    [element] raises the quantity error and not the order error. *)
Lemma second_element_raises_quantity_not_order :
  let st := final (cssSelectorBuilder.element Facade "a") loaded in
  st !! 2 = Some (OSelector (appended Element "a" fresh)) /\
  out_of_order Element (appended Element "a" fresh) = true /\
  result (cssSelectorBuilder.element (Ref 2) "b") st = Throw Selector.quantityError /\
  result (cssSelectorBuilder.element (Ref 2) "b") st <> Throw Selector.orderError.
Proof. cbv zeta. repeat split. discriminate. Qed.

(** C3, amended: every fragment-appending operation makes its quantity
    check first; it raises the quantity error exactly when its kind is
    limited to one occurrence and already present, it raises the order
    error exactly when that check passes and its ordering precondition
    from the table is violated, and otherwise it succeeds, returning the
    instance with the formatted fragment appended and its flag set. *)
Theorem order_error_after_quantity_check k this v (st : Store) :
  (result (invoke k this v) st = Throw Selector.quantityError <->
     duplicate k (target st this) = true) /\
  (result (invoke k this v) st = Throw Selector.orderError <->
     duplicate k (target st this) = false /\
     out_of_order k (target st this) = true) /\
  (duplicate k (target st this) = false ->
   out_of_order k (target st this) = false ->
   exists l st', invoke k this v st = (Return l, st') /\
     st' !! l = Some (OSelector (appended k v (target st this)))).
Proof.
  unfold result.
  destruct (invoke_cases k this v st)
    as [[D E]|[(D & O & E)|(D & O & l & st1 & E & Hl)]];
    rewrite E, D, ?O; cbn; repeat split; try done;
    try (intros; by eexists _, _); try by intros [? ?].
Qed.

Lemma order_error_after_quantity_check_witness :
  exists l st',
    invoke Class (Ref 2) "container" (final (cssSelectorBuilder.id Facade "main") loaded)
      = (Return l, st') /\
    st' !! l = Some (OSelector (appended Class "container" (appended Id "main" fresh))).
Proof.
  apply (order_error_after_quantity_check Class (Ref 2) "container"
           (final (cssSelectorBuilder.id Facade "main") loaded));
    reflexivity.
Defined.

(** C8: in every store reached from the loaded module by any calls, the
    two static properties still refer to the two [Error] objects created
    at load time, which are distinct and are the only [Error] objects
    there are; every failure of a fragment-appending call throws one of
    these two references: the quantity error when the duplicate check
    fails, the order error when the ordering check fails. *)
Theorem errors_shared cs :
  let st := perform_all cs loaded in
  Selector.quantityError <> Selector.orderError /\
  st !! Selector.quantityError = Some (OError Selector.quantityError_message) /\
  st !! Selector.orderError = Some (OError Selector.orderError_message) /\
  errors st = [Selector.quantityError_message; Selector.orderError_message] /\
  forall k this v e,
    result (invoke k this v) st = Throw e ->
    (duplicate k (target st this) = true /\ e = Selector.quantityError) \/
    (duplicate k (target st this) = false /\
     out_of_order k (target st this) = true /\ e = Selector.orderError).
Proof.
  cbv zeta. split; [discriminate|].
  assert (Hinv : forall st : Store,
    st !! Selector.quantityError = Some (OError Selector.quantityError_message) /\
    st !! Selector.orderError = Some (OError Selector.orderError_message) /\
    errors st = [Selector.quantityError_message; Selector.orderError_message] ->
    perform_all cs st !! Selector.quantityError = Some (OError Selector.quantityError_message) /\
    perform_all cs st !! Selector.orderError = Some (OError Selector.orderError_message) /\
    errors (perform_all cs st) = [Selector.quantityError_message; Selector.orderError_message]).
  { induction cs as [|c cs IH]; intros st (Hq & Ho & He); cbn; [done|].
    apply IH. repeat split.
    - by apply perform_keeps_Error.
    - by apply perform_keeps_Error.
    - by rewrite perform_errors. }
  destruct (Hinv loaded) as (Hq & Ho & He); [done|].
  repeat split; try done.
  intros k this v e. unfold result.
  destruct (invoke_cases k this v (perform_all cs loaded))
    as [[D E]|[(D & O & E)|(D & O & l & st1 & E & Hl)]];
    rewrite E; cbn; intros [= <-]; auto.
Qed.

Lemma errors_shared_witness :
  (duplicate PseudoElement
     (target (perform_all [Append PseudoElement Facade "after"] loaded) (Ref 2)) = true /\
   Selector.quantityError = Selector.quantityError) \/
  (duplicate PseudoElement
     (target (perform_all [Append PseudoElement Facade "after"] loaded) (Ref 2)) = false /\
   out_of_order PseudoElement
     (target (perform_all [Append PseudoElement Facade "after"] loaded) (Ref 2)) = true /\
   Selector.quantityError = Selector.orderError).
Proof.
  destruct (errors_shared [Append PseudoElement Facade "after"])
    as (_ & _ & _ & _ & H).
  apply (H PseudoElement (Ref 2) "before"). reflexivity.
Defined.

(** C4: once [element], [id] or [pseudoElement] has succeeded on an
    instance, every later invocation of the same operation on that
    instance, whatever calls were made in between, raises the quantity
    error; [class], [attr] and [pseudoClass] never raise the quantity
    error, and any number of invocations of one of them in a row on one
    instance all succeed. *)
Theorem second_invocation_quantity_error :
  (forall k this v (st : Store) l st' cs v',
      at_most_once k = true ->
      invoke k this v st = (Return l, st') ->
      invoke k (Ref l) v' (perform_all cs st') =
        (Throw Selector.quantityError, perform_all cs st')) /\
  (forall k this v (st : Store),
      at_most_once k = false ->
      result (invoke k this v) st <> Throw Selector.quantityError) /\
  (forall k v vs (st : Store),
      at_most_once k = false ->
      result (build (many k (v :: vs))) st = Return (rendered (many k (v :: vs)))).
Proof.
  repeat split.
  - intros k this v st l st' cs v' Hk H.
    destruct (invoke_cases k this v st)
      as [[_ E]|[(_ & _ & E)|(_ & _ & l1 & st1 & E & Hl)]];
      rewrite E in H; try discriminate.
    injection H as <- <-.
    destruct (perform_all_keeps_flag cs st1 l1 _ k Hl (has_appended_same k v _))
      as (s2 & Hl2 & Hk2).
    rewrite (invoke_Ref k l1 v' _ s2 Hl2). unfold duplicate. by rewrite Hk, Hk2.
  - intros k this v st Hk. unfold result.
    destruct (invoke_cases k this v st)
      as [[D E]|[(_ & _ & E)|(_ & _ & l1 & st1 & E & Hl)]];
      rewrite E; cbn; try discriminate.
    unfold duplicate in D. by rewrite Hk in D.
  - intros k v vs st Hk.
    eapply build_steps. apply (steps_many k (v :: vs) fresh Hk).
    apply out_of_order_fresh.
Qed.

Lemma second_invocation_quantity_error_witness :
  invoke Element (Ref 2) "div"
    (perform_all [Append Class (Ref 2) "wide"; Append Id Facade "main"]
       (final (invoke Element Facade "table") loaded)) =
  (Throw Selector.quantityError,
   perform_all [Append Class (Ref 2) "wide"; Append Id Facade "main"]
     (final (invoke Element Facade "table") loaded)) /\
  result (invoke Class (Ref 2) "tall")
    (final (invoke Class Facade "wide") loaded) <> Throw Selector.quantityError /\
  result (build (many Attr ["href"; "title"])) loaded =
    Return (rendered (many Attr ["href"; "title"])).
Proof.
  destruct second_invocation_quantity_error as (H1 & H2 & H3).
  split; [|split].
  - apply (H1 Element Facade "table" loaded 2); reflexivity.
  - apply H2. reflexivity.
  - apply H3. reflexivity.
Defined.

(** C5: for two selectors [A] and [B] in the store and any string [c],
    [combine(A, c, B).stringify()] is [stringify(A)], a space, [c]
    unchanged, a space, and [stringify(B)]. *)
Theorem combine_stringify (st : Store) l1 c l2 s1 s2 :
  st !! l1 = Some (OSelector s1) ->
  st !! l2 = Some (OSelector s2) ->
  exists a b,
    result (Selector.stringify l1) st = Return a /\
    result (Selector.stringify l2) st = Return b /\
    result (let* r := cssSelectorBuilder.combine l1 c l2 in Selector.stringify r) st
      = Return (a ++ " " ++ c ++ " " ++ b).
Proof.
  intros H1 H2. exists (Fields.selector s1), (Fields.selector s2).
  unfold result, bind. rewrite (combine_Selectors st l1 c l2 s1 s2 H1 H2).
  unfold Selector.stringify, bind, read, ret.
  by rewrite H1, H2, lookup_alloc.
Qed.

Lemma combine_stringify_witness :
  exists a b,
    result (Selector.stringify 2)
      (perform_all [Append Element Facade "tr"; Append Element Facade "td"] loaded)
      = Return a /\
    result (Selector.stringify 3)
      (perform_all [Append Element Facade "tr"; Append Element Facade "td"] loaded)
      = Return b /\
    result (let* r := cssSelectorBuilder.combine 2 ">" 3 in Selector.stringify r)
      (perform_all [Append Element Facade "tr"; Append Element Facade "td"] loaded)
      = Return (a ++ " " ++ ">" ++ " " ++ b).
Proof.
  apply (combine_stringify
           (perform_all [Append Element Facade "tr"; Append Element Facade "td"] loaded)
           2 ">" 3 (appended Element "tr" fresh) (appended Element "td" fresh));
    reflexivity.
Defined.

(** C2, as stated, fails: [id] invoked on the result of
    [combine(element('a'), '+', element('b'))] returns, and the selector
    then reads ['a + b#x']. *)
Lemma id_on_combined_selector_succeeds :
  result
    (let* r := cssSelectorBuilder.combine 2 "+" 3 in
     let* r' := cssSelectorBuilder.id (Ref r) "x" in
     Selector.stringify r')
    (perform_all [Append Element Facade "a"; Append Element Facade "b"] loaded)
  = Return "a + b#x".
Proof. reflexivity. Qed.

Lemma combined_text_not_empty (a b : string) : String.eqb (a ++ " " ++ b) "" = false.
Proof. by destruct a. Qed.

(** C2, amended: the result of [combine] is an ordinary [Selector] with
    the combined text and no presence flag; [element] invoked on it
    raises the order error and leaves it unchanged, while [id], [class],
    [attr], [pseudoClass] and [pseudoElement] each succeed and append
    their formatted fragment to the combined text. *)
Theorem combined_selector_extendable (st : Store) l1 c l2 s1 s2 k v :
  st !! l1 = Some (OSelector s1) ->
  st !! l2 = Some (OSelector s2) ->
  exists r st' text,
    text = Fields.selector s1 ++ " " ++ c ++ " " ++ Fields.selector s2 /\
    cssSelectorBuilder.combine l1 c l2 st = (Return r, st') /\
    st' !! r = Some (OSelector {| Fields.selector := text;
                                  Fields.present := Present.empty |}) /\
    invoke k (Ref r) v st' =
      match k with
      | Element => (Throw Selector.orderError, st')
      | _ => (Return r,
              <[r := OSelector {| Fields.selector := text ++ fragment k v;
                                  Fields.present := mark k Present.empty |}]> st')
      end.
Proof.
  intros H1 H2. eexists _, _, _. split; [reflexivity|].
  split; [by apply combine_Selectors|].
  split; [apply lookup_alloc|].
  rewrite (invoke_Ref k _ v _ _ (lookup_alloc st _)).
  destruct k; try reflexivity.
  unfold duplicate, out_of_order. cbn [at_most_once has Fields.present Fields.selector Present.empty Present.element andb].
  by rewrite combined_text_not_empty.
Qed.

Lemma combined_selector_extendable_witness :
  exists r st' text,
    text = "a" ++ " " ++ "~" ++ " " ++ "b" /\
    cssSelectorBuilder.combine 2 "~" 3
      (perform_all [Append Element Facade "a"; Append Element Facade "b"] loaded)
      = (Return r, st') /\
    st' !! r = Some (OSelector {| Fields.selector := text;
                                  Fields.present := Present.empty |}) /\
    invoke PseudoClass (Ref r) "hover" st' =
      (Return r,
       <[r := OSelector {| Fields.selector := text ++ fragment PseudoClass "hover";
                           Fields.present := mark PseudoClass Present.empty |}]> st').
Proof.
  apply (combined_selector_extendable
           (perform_all [Append Element Facade "a"; Append Element Facade "b"] loaded)
           2 "~" 3 (appended Element "a" fresh) (appended Element "b" fresh)
           PseudoClass "hover");
    reflexivity.
Defined.

(** X9: what happens to an append of an earlier kind right after one of
    a later kind, for every pair of kinds: ten pairs raise the order
    error, five are accepted. *)
Lemma earlier_after_later later earlier a b (st : Store) :
  rank earlier < rank later ->
  result (build [(later, a); (earlier, b)]) st =
    if accepted_after later earlier
    then Return (fragment later a ++ fragment earlier b)
    else Throw Selector.orderError.
Proof.
  intros Hr. unfold result, build. cbn [chain]. unfold bind.
  rewrite (invoke_fresh later Facade a st eq_refl).
  rewrite (invoke_Ref earlier _ b _ _ (lookup_alloc st _)).
  destruct later, earlier; cbn in Hr; try lia; cbn; try reflexivity.
  all: unfold Selector.stringify, bind, read, ret.
  all: by rewrite insert_alloc, lookup_alloc.
Qed.

(** C1: an append of an earlier kind after one of a later kind is not
    always rejected: [pseudoElement('after').class('draggable')] returns
    and builds ['::after.draggable'], and [attr('href').id('main')]
    returns and builds ['[href]#main']. *)
Theorem earlier_kind_accepted_after_later :
  result (build [(PseudoElement, "after"); (Class, "draggable")]) loaded
    = Return "::after.draggable" /\
  result (build [(Attr, "href"); (Id, "main")]) loaded
    = Return "[href]#main".
Proof. split; reflexivity. Qed.

(** X8: building a selector given in canonical order: it succeeds with
    the concatenated fragments unless it has both a class and a
    pseudo-element, in which case the order error is raised. *)
Lemma build_in_order p (st : Store) :
  in_order p <> [] ->
  result (build (in_order p)) st =
    if class_and_pseudoElement p then Throw Selector.orderError
    else Return (rendered (in_order p)).
Proof.
  intros Hne. pose proof (steps_in_order p) as H.
  destruct (class_and_pseudoElement p) eqn:C.
  - by apply class_and_pseudoElement_order_error.
  - destruct (in_order p) as [|op ops] eqn:E; [done|].
    destruct H as [text H]. by apply (build_steps op ops st _ H).
Qed.

(** C6: [element('div').class('container').pseudoElement('after')] is in
    canonical order, yet the call of [pseudoElement] raises the order
    error instead of building ['div.container::after']. *)
Theorem class_then_pseudoElement_rejected :
  in_order {| the_element := Some "div"; the_id := None;
              classes := ["container"]; attrs := []; pseudoClasses := [];
              the_pseudoElement := Some "after" |}
    = [(Element, "div"); (Class, "container"); (PseudoElement, "after")] /\
  result (build [(Element, "div"); (Class, "container")]) loaded
    = Return "div.container" /\
  result (build [(Element, "div"); (Class, "container"); (PseudoElement, "after")]) loaded
    = Throw Selector.orderError.
Proof. repeat split. Qed.

(* ================================================================== *)
(** ** getJSON and fromJSON: the round trip *)
(* ================================================================== *)

Module FlatJSONFacts.
Import FlatJSON.

Lemma until_quote_app k rest :
  plain k = true -> until_quote (k ++ String quote rest) = Some (k, rest).
Proof.
  induction k as [|c k IH]; cbn [plain until_quote append].
  - by rewrite Ascii.eqb_refl.
  - intros [Hc Hk]%andb_prop. rewrite (IH Hk).
    unfold plain_char in Hc. by destruct (Ascii.eqb c quote).
Qed.

Lemma number_stop acc rest : no_digit_first rest = true -> number acc rest = (acc, rest).
Proof. destruct rest as [|c rest]; cbn; [done|]. by destruct (digit c). Qed.

Lemma number_uint d acc rest :
  no_digit_first rest = true ->
  number acc (NilEmpty.string_of_uint d ++ rest) = (Nat.of_uint_acc d acc, rest).
Proof.
  intros Hr. revert acc.
  induction d as [|d IH|d IH|d IH|d IH|d IH|d IH|d IH|d IH|d IH|d IH]; intros acc.
  1: by apply number_stop.
  all: cbn [NilEmpty.string_of_uint append number Nat.of_uint_acc].
  all: change (digit _) with (Some 0) || change (digit _) with (Some 1)
       || change (digit _) with (Some 2) || change (digit _) with (Some 3)
       || change (digit _) with (Some 4) || change (digit _) with (Some 5)
       || change (digit _) with (Some 6) || change (digit _) with (Some 7)
       || change (digit _) with (Some 8) || change (digit _) with (Some 9).
  all: cbv iota beta; rewrite IH, Nat.tail_mul_spec; f_equal; f_equal; lia.
Qed.

Lemma number_decimal n rest :
  no_digit_first rest = true -> number 0 (decimal n ++ rest) = (n, rest).
Proof.
  intros Hr. unfold decimal. rewrite (number_uint _ 0 rest Hr).
  change (Nat.of_uint_acc (Nat.to_uint n) 0) with (Nat.of_uint (Nat.to_uint n)).
  by rewrite DecimalNat.Unsigned.of_to.
Qed.

Lemma decimal_first n : exists c s, decimal n = String c s /\ digit c <> None.
Proof.
  unfold decimal. pose proof (DecimalNat.Unsigned.of_to n) as H.
  destruct (Nat.to_uint n) as [|d|d|d|d|d|d|d|d|d|d] eqn:E.
  1: { destruct n; [discriminate E|]. cbn in H. discriminate H. }
  all: eexists _, _; split; [reflexivity|discriminate].
Qed.

Lemma field_app k n rest :
  field k n ++ rest = String quote (k ++ String quote (String ":" (decimal n ++ rest))).
Proof.
  unfold field. cbn. f_equal. by rewrite string_app_assoc.
Qed.

Lemma parse_field fuel k n rest :
  plain k = true ->
  no_digit_first rest = true ->
  parse_fields (S fuel) (field k n ++ rest) =
    match rest with
    | String "," s3 =>
        match parse_fields fuel s3 with
        | Some fs => Some ((k, n) :: fs)
        | None => None
        end
    | String "}" EmptyString => Some [(k, n)]
    | _ => None
    end.
Proof.
  intros Hk Hr. rewrite field_app. cbn [parse_fields].
  rewrite Ascii.eqb_refl. cbn [negb]. rewrite (until_quote_app _ _ Hk).
  destruct (decimal_first n) as (c & s & E & Hc).
  pose proof (number_decimal n rest Hr) as Hn. rewrite E in *. cbn [append].
  destruct (digit c); [|done]. cbn [append] in Hn. by rewrite Hn.
Qed.

Lemma parse_fields_fields fuel f fs :
  plain_keys (f :: fs) = true ->
  length fs < fuel ->
  parse_fields fuel (fields (f :: fs) ++ "}") = Some (f :: fs).
Proof.
  revert fuel f. induction fs as [|g fs IH]; intros fuel [k n] Hp Hf.
  - destruct fuel as [|fuel]; [cbn in Hf; lia|].
    cbn [fields]. cbn in Hp. apply andb_prop in Hp as [Hk _].
    by rewrite (parse_field fuel k n "}" Hk eq_refl).
  - destruct fuel as [|fuel]; [cbn in Hf; lia|].
    change (fields ((k, n) :: g :: fs)) with (field k n ++ "," ++ fields (g :: fs)).
    rewrite !string_app_assoc. cbn [append].
    cbn in Hp. apply andb_prop in Hp as [Hk Hp].
    rewrite (parse_field fuel k n (String "," (fields (g :: fs) ++ "}")) Hk eq_refl).
    rewrite IH; [done|exact Hp|cbn in *; lia].
Qed.

Lemma string_length_app (a b : string) :
  String.length (a ++ b) = String.length a + String.length b.
Proof. induction a as [|c a IH]; cbn; [done|]. by rewrite IH. Qed.

Lemma fields_length f fs : length fs < String.length (fields (f :: fs) ++ "}").
Proof.
  revert f. induction fs as [|g fs IH]; intros [k n].
  - cbn. lia.
  - change (fields ((k, n) :: g :: fs)) with (field k n ++ "," ++ fields (g :: fs)).
    rewrite !string_app_assoc, !string_length_app. specialize (IH g).
    rewrite string_length_app in IH. cbn [String.length length] in *. lia.
Qed.

(** The codec round-trips every flat object whose keys need no escaping. *)
Lemma parse_stringify (o : Object nat (list (string * nat) -> nat)) :
  plain_keys (own o) = true ->
  parse (stringify o) = Some {| own := own o; proto := [] |}.
Proof.
  destruct o as [fs p]. cbn [own]. unfold stringify. cbn [own].
  destruct fs as [|f fs]; [done|]. intros Hp.
  pose proof (parse_fields_fields _ f fs Hp (fields_length f fs)) as H.
  destruct f as [k n].
  assert (E : fields ((k, n) :: fs) ++ "}" = String quote (k ++ String quote (String ":" (decimal n ++
              match fs with [] => "}" | _ => "," ++ fields fs ++ "}" end)))).
  { destruct fs as [|g fs].
    - cbn [fields]. by rewrite field_app.
    - change (fields ((k, n) :: g :: fs)) with (field k n ++ "," ++ fields (g :: fs)).
      by rewrite !string_app_assoc, field_app. }
  unfold parse. cbn [append]. rewrite E in *. by rewrite H.
Qed.
End FlatJSONFacts.

(** So the own data fields of every flat object with plain keys survive
    the encoding. *)
Lemma flat_survives (o : Object nat (list (string * nat) -> nat)) :
  FlatJSON.plain_keys (own o) = true ->
  survives FlatJSON.stringify FlatJSON.parse o.
Proof.
  intros H. eexists. split; [by apply FlatJSONFacts.parse_stringify|done].
Qed.

Example flat_round_trip :
  match fromJSON FlatJSON.parse FlatJSON.shape
          (getJSON FlatJSON.stringify FlatJSON.value) with
  | Some r => own r = [("width", 10); ("height", 20)] /\
              call_method (fun f o => f (own o)) r "getArea" = Some 200
  | None => False
  end.
Proof. by cbn. Qed.

(** C9: when the own data fields of [value] survive the encoding,
    [fromJSON shape (getJSON value)] returns an object with exactly those
    fields, on which every method of [shape] gives what it gives on an
    object constructed with that shape and those fields. This holds
    whatever the two built-ins and the methods are. *)
Theorem fromJSON_getJSON {Data Method Output : Type}
    (apply_method : Method -> Object Data Method -> Output)
    (JSON_stringify : Object Data Method -> string)
    (JSON_parse : string -> option (Object Data Method))
    (shape : list (string * Method)) (value : Object Data Method) :
  survives JSON_stringify JSON_parse value ->
  exists r,
    fromJSON JSON_parse shape (getJSON JSON_stringify value) = Some r /\
    own r = own value /\
    forall name,
      call_method apply_method r name =
      call_method apply_method {| own := own value; proto := shape |} name.
Proof.
  intros (o & Hparse & Hown).
  exists (setPrototypeOf o shape). unfold fromJSON, getJSON.
  rewrite Hparse. repeat split; [done|].
  intros name. unfold call_method, setPrototypeOf. cbn. by rewrite Hown.
Qed.

Lemma fromJSON_getJSON_witness :
  exists r,
    fromJSON FlatJSON.parse FlatJSON.shape
      (getJSON FlatJSON.stringify FlatJSON.value) = Some r /\
    own r = own FlatJSON.value /\
    forall name,
      call_method (fun f o => f (own o)) r name =
      call_method (fun f o => f (own o))
        {| own := own FlatJSON.value; proto := FlatJSON.shape |} name.
Proof.
  apply (fromJSON_getJSON (fun f o => f (own o))
           FlatJSON.stringify FlatJSON.parse FlatJSON.shape FlatJSON.value).
  exists {| own := [("width", 10); ("height", 20)]; proto := [] |}.
  split; reflexivity.
Defined.

(* ================================================================== *)
(** ** Further properties of the selector builder *)
(* ================================================================== *)

(** What a call does to one [Selector] of the store: nothing, or an
    append that passed both checks. *)
Lemma perform_at c (st : Store) l s :
  st !! l = Some (OSelector s) ->
  perform c st !! l = Some (OSelector s) \/
  exists k v, duplicate k s = false /\ out_of_order k s = false /\
    perform c st !! l = Some (OSelector (appended k v s)).
Proof.
  intros Hl. destruct c as [k this v|l1 c l2|l0]; cbn; unfold final.
  - destruct (is_Selector st this) eqn:Hs.
    + destruct (is_Selector_lookup _ _ Hs) as (l' & -> & Hl').
      rewrite (invoke_Ref k l' v st _ Hl').
      destruct (duplicate k _) eqn:D; [by left|].
      destruct (out_of_order k _) eqn:O; [by left|]. cbn [snd].
      destruct (decide (l' = l)) as [->|Hne].
      * rewrite Hl in Hl'. injection Hl' as Hs'. subst s.
        right. exists k, v. repeat split; [done..|]. by eapply lookup_assigned.
      * left. by rewrite list_lookup_insert_ne.
    + rewrite (invoke_fresh _ _ _ _ Hs). left. by apply lookup_app_l_Some.
  - unfold cssSelectorBuilder.combine, Selector.toString, Selector.new, bind, ret, read, alloc.
    destruct (st !! l1) as [[s1|]|]; try by left.
    destruct (st !! l2) as [[s2|]|]; try by left.
    left. by apply lookup_app_l_Some.
  - unfold Selector.stringify, bind, ret, read.
    destruct (st !! l0) as [[s0|]|]; by left.
Qed.

(** A call that is not an append on [l] leaves the object at [l] as it
    is. *)
Lemma perform_other c (st : Store) l o :
  receiver_is l c = false ->
  st !! l = Some o ->
  perform c st !! l = Some o.
Proof.
  intros Hr Hl. destruct c as [k this v|l1 c l2|l0]; cbn; unfold final.
  - destruct (is_Selector st this) eqn:Hs.
    + destruct (is_Selector_lookup _ _ Hs) as (l' & -> & Hl').
      rewrite (invoke_Ref k l' v st _ Hl').
      destruct (duplicate k _); [done|]. destruct (out_of_order k _); [done|].
      cbn in Hr. apply bool_decide_eq_false_1 in Hr.
      cbn [snd]. by rewrite list_lookup_insert_ne.
    + rewrite (invoke_fresh _ _ _ _ Hs). by apply lookup_app_l_Some.
  - unfold cssSelectorBuilder.combine, Selector.toString, Selector.new, bind, ret, read, alloc.
    destruct (st !! l1) as [[s1|]|]; try done.
    destruct (st !! l2) as [[s2|]|]; try done.
    by apply lookup_app_l_Some.
  - unfold Selector.stringify, bind, ret, read.
    by destruct (st !! l0) as [[s0|]|].
Qed.

Lemma out_of_order_appended k k' v s :
  out_of_order k s = true -> out_of_order k (appended k' v s) = true.
Proof.
  destruct s as [text [e i c a pc pe]].
  destruct k, k'; cbn; try done; try (by destruct text); by destruct pe, c.
Qed.

Lemma rendered_not_empty op ops :
  Element ∉ (op :: ops).*1 -> String.eqb (rendered (op :: ops)) "" = false.
Proof.
  destruct op as [k v]. intros H. destruct k; try done.
  exfalso. apply H. cbn. apply elem_of_cons. by left.
Qed.

(** What a chain that returns has done. *)
Lemma chain_Facade_inv ops (st st' : Store) l :
  chain Facade ops st = (Return (Ref l), st') ->
  exists op ops' s',
    ops = op :: ops' /\ l = length st /\
    st' = (st ++ [OSelector s'])%list /\ steps fresh ops = Some s'.
Proof.
  destruct ops as [|op ops]; [discriminate|]. intros H.
  destruct (steps fresh (op :: ops)) as [s'|] eqn:E.
  - rewrite (chain_Facade op ops st s' E) in H. injection H as <- <-.
    by eexists _, _, _.
  - destruct (chain_Facade_None op ops st E) as (e & st1 & E1).
    rewrite E1 in H. discriminate.
Qed.

Lemma chain_Ref_inv l ops (st st' : Store) s r :
  st !! l = Some (OSelector s) ->
  chain (Ref l) ops st = (Return r, st') ->
  exists s', r = Ref l /\ steps s ops = Some s' /\
             st' = <[l := OSelector s']> st.
Proof.
  intros Hl H. destruct (steps s ops) as [s'|] eqn:E.
  - rewrite (chain_Ref l ops st s s' Hl E) in H. injection H as <- <-.
    by eexists.
  - destruct (chain_Ref_None l ops st s Hl E) as (e & st1 & E1).
    rewrite E1 in H. discriminate.
Qed.

Lemma steps_at_most_once k s ops s' :
  at_most_once k = true ->
  steps s ops = Some s' ->
  occurrences k ops + (if has k (Fields.present s) then 1 else 0) <= 1.
Proof.
  intros Hk. revert s. induction ops as [|[k' v] ops IH]; intros s; cbn.
  - intros _. destruct (has k _); lia.
  - unfold step. cbn. destruct (duplicate k' s) eqn:D; [done|].
    destruct (out_of_order k' s); [done|]. cbn. intros H.
    specialize (IH _ H). cbn [appended Fields.present] in IH.
    rewrite has_mark in IH.
    destruct (decide (k' = k)) as [->|Hne].
    + rewrite (bool_decide_eq_true_2 (k = k)) in * by done. cbn in IH.
      unfold duplicate in D. rewrite Hk in D. cbn in D. rewrite D. lia.
    + rewrite (bool_decide_eq_false_2 (k' = k)) by done.
      rewrite (bool_decide_eq_false_2 (k = k')) in IH by done. cbn in *. lia.
Qed.

(** X1: a method called on the facade, or on anything that is not a
    [Selector], never fails: it creates a new instance at the next
    address, holding just the formatted fragment and the flag of its
    kind, and leaves every existing object as it is. *)
Theorem facade_call_starts_fresh k this v (st : Store) :
  is_Selector st this = false ->
  invoke k this v st =
    (Return (length st),
     (st ++ [OSelector {| Fields.selector := fragment k v;
                          Fields.present := mark k Present.empty |}])%list).
Proof. intros H. by rewrite (invoke_fresh _ _ _ _ H). Qed.

Lemma facade_call_starts_fresh_witness :
  invoke PseudoClass (Ref Selector.orderError) "hover" loaded =
    (Return (length loaded),
     (loaded ++ [OSelector {| Fields.selector := fragment PseudoClass "hover";
                              Fields.present := mark PseudoClass Present.empty |}])%list).
Proof.
  apply (facade_call_starts_fresh PseudoClass (Ref Selector.orderError) "hover" loaded).
  reflexivity.
Defined.

(** X2: a method called on a [Selector] works in place: it creates no
    object, it changes no object other than its receiver and, when it
    returns, it returns the receiver itself, whose text is then the old
    text followed by the formatted fragment and whose flag for the kind
    is set. *)
Theorem append_changes_only_receiver k l v (st st' : Store) s o :
  st !! l = Some (OSelector s) ->
  invoke k (Ref l) v st = (o, st') ->
  length st' = length st /\
  (forall l', l' <> l -> st' !! l' = st !! l') /\
  (forall r, o = Return r ->
     r = l /\
     st' !! l = Some (OSelector
       {| Fields.selector := Fields.selector s ++ fragment k v;
          Fields.present := mark k (Fields.present s) |})).
Proof.
  intros Hl H. rewrite (invoke_Ref k l v st s Hl) in H.
  destruct (duplicate k s); [injection H as <- <-; by repeat split|].
  destruct (out_of_order k s); injection H as <- <-.
  - by repeat split.
  - split; [apply length_insert|]. split.
    + intros l' Hne. by apply list_lookup_insert_ne.
    + intros r [= <-]. split; [done|]. by eapply lookup_assigned.
Qed.

Lemma append_changes_only_receiver_witness :
  let st := perform_all [Append Element Facade "a"; Append Element Facade "b"] loaded in
  let st' := final (invoke Class (Ref 2) "wide") st in
  length st' = length st /\
  (forall l', l' <> 2 -> st' !! l' = st !! l') /\
  (forall r, Return 2 = Return r ->
     r = 2 /\
     st' !! 2 = Some (OSelector
       {| Fields.selector := "a" ++ fragment Class "wide";
          Fields.present := mark Class (Fields.present (appended Element "a" fresh)) |})).
Proof.
  intros st st'.
  apply (append_changes_only_receiver Class 2 "wide" st st'
           (appended Element "a" fresh) (Return 2)); reflexivity.
Defined.

(** X3: [combine] of two [Selector] instances never fails and changes no
    existing object; its result is a new instance holding a copy of the
    texts: whatever is done afterwards, short of appending to the result
    itself, the result keeps reading as the two texts at the time of
    the call joined by the combinator. *)
Theorem combine_is_a_snapshot (st : Store) l1 c l2 s1 s2 cs :
  st !! l1 = Some (OSelector s1) ->
  st !! l2 = Some (OSelector s2) ->
  forallb (fun c => negb (receiver_is (length st) c)) cs = true ->
  result (cssSelectorBuilder.combine l1 c l2) st = Return (length st) /\
  (forall l o, st !! l = Some o ->
     final (cssSelectorBuilder.combine l1 c l2) st !! l = Some o) /\
  result (Selector.stringify (length st))
    (perform_all cs (final (cssSelectorBuilder.combine l1 c l2) st))
    = Return (Fields.selector s1 ++ " " ++ c ++ " " ++ Fields.selector s2).
Proof.
  intros H1 H2 Hcs. unfold result, final.
  rewrite (combine_Selectors st l1 c l2 s1 s2 H1 H2). cbn [fst snd].
  split; [done|]. split; [intros l o Hl; by apply lookup_app_l_Some|].
  pose proof (lookup_alloc st (OSelector
    {| Fields.selector := Fields.selector s1 ++ " " ++ c ++ " " ++ Fields.selector s2;
       Fields.present := Present.empty |})) as Hr.
  revert Hr Hcs. generalize (st ++ [OSelector
    {| Fields.selector := Fields.selector s1 ++ " " ++ c ++ " " ++ Fields.selector s2;
       Fields.present := Present.empty |}])%list.
  induction cs as [|c0 cs IH]; intros st1 Hr Hcs; cbn.
  - unfold Selector.stringify, bind, read, ret. by rewrite Hr.
  - cbn in Hcs. apply andb_prop in Hcs as [Hc Hcs].
    apply IH; [|done]. apply perform_other; [|done].
    by destruct (receiver_is (length st) c0).
Qed.

Lemma combine_is_a_snapshot_witness :
  let st := perform_all [Append Element Facade "a"; Append Element Facade "b"] loaded in
  result (cssSelectorBuilder.combine 2 "+" 3) st = Return (length st) /\
  (forall l o, st !! l = Some o ->
     final (cssSelectorBuilder.combine 2 "+" 3) st !! l = Some o) /\
  result (Selector.stringify (length st))
    (perform_all [Append Id (Ref 2) "x"; Append Class (Ref 3) "y"]
       (final (cssSelectorBuilder.combine 2 "+" 3) st))
    = Return ("a" ++ " " ++ "+" ++ " " ++ "b").
Proof.
  intros st.
  apply (combine_is_a_snapshot st 2 "+" 3
           (appended Element "a" fresh) (appended Element "b" fresh)
           [Append Id (Ref 2) "x"; Append Class (Ref 3) "y"]); reflexivity.
Defined.

(** X4: a [Selector] only grows: after any calls it is still a
    [Selector] at the same address, its text starts with the text it had,
    and every flag it had is still set. *)
Theorem selectors_only_grow cs (st : Store) l s :
  st !! l = Some (OSelector s) ->
  exists s' suffix,
    perform_all cs st !! l = Some (OSelector s') /\
    Fields.selector s' = Fields.selector s ++ suffix /\
    forall k, has k (Fields.present s) = true -> has k (Fields.present s') = true.
Proof.
  revert st s. induction cs as [|c cs IH]; intros st s Hl; cbn.
  - exists s, "". by rewrite string_app_empty_r.
  - destruct (perform_at c st l s Hl) as [H|(k & v & _ & _ & H)].
    + by apply IH.
    + destruct (IH _ _ H) as (s' & suffix & Hl' & Ht & Hf).
      exists s', (fragment k v ++ suffix). split; [done|]. split.
      * rewrite Ht. cbn. by rewrite string_app_assoc.
      * intros k0 Hk0. apply Hf. by apply has_appended.
Qed.

Lemma selectors_only_grow_witness :
  exists s' suffix,
    perform_all [Append Class (Ref 2) "wide"; Append Element (Ref 2) "p"]
      (final (invoke Id Facade "main") loaded) !! 2 = Some (OSelector s') /\
    Fields.selector s' = Fields.selector (appended Id "main" fresh) ++ suffix /\
    forall k, has k (Fields.present (appended Id "main" fresh)) = true ->
              has k (Fields.present s') = true.
Proof.
  apply (selectors_only_grow
           [Append Class (Ref 2) "wide"; Append Element (Ref 2) "p"]
           (final (invoke Id Facade "main") loaded) 2 (appended Id "main" fresh)).
  reflexivity.
Defined.

(** X5: whatever the order of its calls, a chain started on the facade
    that returns has built a new instance whose text is the
    concatenation of the formatted fragments in call order and whose
    flags are exactly the kinds that were appended. *)
Theorem accepted_chain_renders ops (st st' : Store) l :
  chain Facade ops st = (Return (Ref l), st') ->
  exists s',
    l = length st /\ st' = (st ++ [OSelector s'])%list /\
    Fields.selector s' = rendered ops /\
    (forall k, has k (Fields.present s') = bool_decide (k ∈ ops.*1)) /\
    result (Selector.stringify l) st' = Return (rendered ops).
Proof.
  intros H. destruct (chain_Facade_inv ops st st' l H) as (op & ops' & s' & -> & -> & -> & E).
  exists s'. pose proof (steps_selector _ _ _ E) as Ht. cbn [fresh Fields.selector append] in Ht.
  repeat split; [done| |].
  - intros k. rewrite (steps_flags _ _ _ k E). by destruct k.
  - unfold result, Selector.stringify, bind, read, ret. rewrite lookup_alloc. cbn [fst].
    by rewrite Ht.
Qed.

Lemma accepted_chain_renders_witness :
  exists s',
    2 = length loaded /\
    final (chain Facade [(PseudoClass, "hover"); (Id, "main")]) loaded
      = (loaded ++ [OSelector s'])%list /\
    Fields.selector s' = rendered [(PseudoClass, "hover"); (Id, "main")] /\
    (forall k, has k (Fields.present s') =
               bool_decide (k ∈ [(PseudoClass, "hover"); (Id, "main")].*1)) /\
    result (Selector.stringify 2)
      (final (chain Facade [(PseudoClass, "hover"); (Id, "main")]) loaded)
      = Return (rendered [(PseudoClass, "hover"); (Id, "main")]).
Proof.
  apply (accepted_chain_renders [(PseudoClass, "hover"); (Id, "main")] loaded).
  reflexivity.
Defined.

(** X6: in a chain started on the facade that returns, [element], [id]
    and [pseudoElement] each occur at most once. *)
Theorem accepted_chain_at_most_once ops (st st' : Store) l k :
  at_most_once k = true ->
  chain Facade ops st = (Return (Ref l), st') ->
  occurrences k ops <= 1.
Proof.
  intros Hk H. destruct (chain_Facade_inv ops st st' l H) as (op & ops' & s' & -> & _ & _ & E).
  pose proof (steps_at_most_once k fresh _ s' Hk E) as Hle.
  destruct (has k _); lia.
Qed.

Lemma accepted_chain_at_most_once_witness :
  occurrences Id [(Element, "div"); (Id, "main"); (Class, "wide")] <= 1.
Proof.
  apply (accepted_chain_at_most_once
           [(Element, "div"); (Id, "main"); (Class, "wide")] loaded
           (final (chain Facade [(Element, "div"); (Id, "main"); (Class, "wide")]) loaded)
           2 Id); reflexivity.
Defined.

(** X7: [element] is accepted only as the first call of a chain: on the
    instance a chain started on the facade has returned, [element]
    always fails and changes nothing, with the quantity error when the
    chain contains an [element] and with the order error otherwise. *)
Theorem element_only_first ops (st st' : Store) l v :
  chain Facade ops st = (Return (Ref l), st') ->
  invoke Element (Ref l) v st' =
    (Throw (if bool_decide (Element ∈ ops.*1)
            then Selector.quantityError else Selector.orderError), st').
Proof.
  intros H. destruct (chain_Facade_inv ops st st' l H) as (op & ops' & s' & -> & -> & -> & E).
  rewrite (invoke_Ref Element _ v _ s' (lookup_alloc st _)).
  unfold duplicate. cbn [at_most_once andb].
  rewrite (steps_flags _ _ _ Element E). cbn [fresh Fields.present has Present.empty Present.element orb].
  destruct (bool_decide (Element ∈ (op :: ops').*1)) eqn:B; [done|].
  apply bool_decide_eq_false_1 in B.
  cbn [out_of_order]. rewrite (steps_selector _ _ _ E). cbn [fresh Fields.selector append].
  by rewrite (rendered_not_empty op ops' B).
Qed.

Lemma element_only_first_witness :
  invoke Element (Ref 2) "div"
    (final (chain Facade [(Id, "main"); (Class, "wide")]) loaded) =
  (Throw (if bool_decide (Element ∈ [(Id, "main"); (Class, "wide")].*1)
          then Selector.quantityError else Selector.orderError),
   final (chain Facade [(Id, "main"); (Class, "wide")]) loaded).
Proof.
  apply (element_only_first [(Id, "main"); (Class, "wide")] loaded).
  reflexivity.
Defined.

Lemma build_in_order_witness :
  result (build (in_order {| the_element := Some "a"; the_id := None;
                             classes := []; attrs := ["href"];
                             pseudoClasses := ["focus"; "hover"];
                             the_pseudoElement := Some "after" |})) loaded
  = Return (rendered (in_order {| the_element := Some "a"; the_id := None;
                                  classes := []; attrs := ["href"];
                                  pseudoClasses := ["focus"; "hover"];
                                  the_pseudoElement := Some "after" |})).
Proof.
  apply (build_in_order {| the_element := Some "a"; the_id := None;
                           classes := []; attrs := ["href"];
                           pseudoClasses := ["focus"; "hover"];
                           the_pseudoElement := Some "after" |} loaded).
  discriminate.
Defined.

Lemma earlier_after_later_witness :
  result (build [(PseudoClass, "hover"); (Attr, "href")]) loaded
  = Throw Selector.orderError.
Proof.
  apply (earlier_after_later PseudoClass Attr "hover" "href" loaded).
  cbn. lia.
Defined.

(** X10: a chain is not undone when it fails: if a chain continued on a
    [Selector] returns and the next call throws, the longer chain throws
    the same error and leaves the store as the shorter chain left it,
    the receiver keeping every fragment appended before the failure. *)
Theorem failed_chain_keeps_prefix l ops k v (st st1 st2 : Store) s r e :
  st !! l = Some (OSelector s) ->
  chain (Ref l) ops st = (Return r, st1) ->
  invoke k r v st1 = (Throw e, st2) ->
  chain (Ref l) (ops ++ [(k, v)]) st = (Throw e, st1) /\
  exists s1, st1 !! l = Some (OSelector s1) /\
             Fields.selector s1 = Fields.selector s ++ rendered ops.
Proof.
  intros Hl Hc Hi.
  destruct (chain_Ref_inv l ops st st1 s r Hl Hc) as (s1 & -> & E & ->).
  assert (Hst : st2 = <[l := OSelector s1]> st).
  { destruct (invoke_cases k (Ref l) v (<[l := OSelector s1]> st))
      as [[_ E1]|[(_ & _ & E1)|(_ & _ & l1 & st3 & E1 & _)]];
      rewrite E1 in Hi; by inversion Hi. }
  subst st2. split.
  - rewrite chain_app. unfold bind at 1. rewrite Hc. cbn [chain]. unfold bind.
    by rewrite Hi.
  - exists s1. split; [by eapply lookup_assigned|by apply steps_selector].
Qed.

Lemma failed_chain_keeps_prefix_witness :
  chain (Ref 2) ([(Class, "wide"); (Attr, "href")] ++ [(Id, "main")])
    (final (invoke Element Facade "div") loaded)
  = (Throw Selector.orderError,
     final (chain (Ref 2) [(Class, "wide"); (Attr, "href")])
       (final (invoke Element Facade "div") loaded)) /\
  exists s1,
    final (chain (Ref 2) [(Class, "wide"); (Attr, "href")])
      (final (invoke Element Facade "div") loaded) !! 2 = Some (OSelector s1) /\
    Fields.selector s1 =
      Fields.selector (appended Element "div" fresh) ++
      rendered [(Class, "wide"); (Attr, "href")].
Proof.
  apply (failed_chain_keeps_prefix 2 [(Class, "wide"); (Attr, "href")] Id "main"
           (final (invoke Element Facade "div") loaded)
           (final (chain (Ref 2) [(Class, "wide"); (Attr, "href")])
              (final (invoke Element Facade "div") loaded))
           (final (chain (Ref 2) [(Class, "wide"); (Attr, "href")])
              (final (invoke Element Facade "div") loaded))
           (appended Element "div" fresh) (Ref 2) Selector.orderError);
    reflexivity.
Defined.

Lemma invoke_verdict k l v (st : Store) s :
  st !! l = Some (OSelector s) ->
  invoke k (Ref l) v st =
    match verdict k s with
    | Some e => (Throw e, st)
    | None => (Return l, <[l := OSelector (appended k v s)]> st)
    end.
Proof.
  intros Hl. rewrite (invoke_Ref k l v st s Hl). unfold verdict.
  destruct (duplicate k s); [done|]. by destruct (out_of_order k s).
Qed.

Lemma verdict_appended k k' v s e :
  verdict k s = Some e ->
  verdict k' s = None ->
  verdict k (appended k' v s) = Some e.
Proof.
  unfold verdict. intros Hk Hk'.
  destruct (duplicate k' s) eqn:D'; [done|].
  destruct (out_of_order k' s) eqn:O'; [done|].
  destruct (duplicate k s) eqn:D.
  - unfold duplicate in *. apply andb_prop in D as [Ha Hh].
    by rewrite Ha, (has_appended k k' v s Hh).
  - destruct (out_of_order k s) eqn:O; [|done].
    assert (Hne : k <> k') by (intros ->; congruence).
    rewrite (out_of_order_appended k k' v s O).
    unfold duplicate in *. cbn [appended Fields.present]. rewrite has_mark.
    rewrite (bool_decide_eq_false_2 (k = k')) by done. cbn [orb]. by rewrite D.
Qed.

(** X12: a rejection is permanent: once a fragment-appending call has
    thrown on a [Selector], the same operation on that instance throws
    the same error after any further calls, with any value. *)
Theorem rejection_is_permanent k l v (st : Store) s e cs v' :
  st !! l = Some (OSelector s) ->
  result (invoke k (Ref l) v) st = Throw e ->
  invoke k (Ref l) v' (perform_all cs st) = (Throw e, perform_all cs st).
Proof.
  intros Hl H. unfold result in H. rewrite (invoke_verdict k l v st s Hl) in H.
  assert (Hv : verdict k s = Some e).
  { destruct (verdict k s); cbn in H; congruence. }
  clear H. revert st s Hl Hv. induction cs as [|c cs IH]; intros st s Hl Hv; cbn.
  - by rewrite (invoke_verdict k l v' st s Hl), Hv.
  - destruct (perform_at c st l s Hl) as [H|(k' & v0 & D & O & H)].
    + by apply (IH _ s).
    + apply (IH _ _ H). apply verdict_appended; [done|].
      unfold verdict. by rewrite D, O.
Qed.

Lemma rejection_is_permanent_witness :
  invoke Class (Ref 2) "tall"
    (perform_all [Append PseudoClass (Ref 2) "hover"; Append Class Facade "x"]
       (final (invoke Attr Facade "href") loaded))
  = (Throw Selector.orderError,
     perform_all [Append PseudoClass (Ref 2) "hover"; Append Class Facade "x"]
       (final (invoke Attr Facade "href") loaded)).
Proof.
  apply (rejection_is_permanent Class 2 "wide"
           (final (invoke Attr Facade "href") loaded)
           (appended Attr "href" fresh)); reflexivity.
Defined.

(* ================================================================== *)
(** ** Rectangle: the area is symmetric *)
(* ================================================================== *)

Lemma times_comm (x y : number) : times x y = times y x.
Proof.
  unfold times.
  destruct x as [sx|sx| |sx mx ex], y as [sy|sy| |sy my ey]; cbn;
    try reflexivity; rewrite (xorb_comm sx sy); try reflexivity.
  by rewrite (Pos.mul_comm mx my), (Z.add_comm ex ey).
Qed.

(** X11: the area does not depend on which side is called the width:
    [Rectangle(w, h).getArea()] and [Rectangle(h, w).getArea()] are the
    same number, for all numbers including infinities and NaN. *)
Theorem Rectangle_area_symmetric (w h : number) :
  Rectangle.getArea (Rectangle w h) tt = Rectangle.getArea (Rectangle h w) tt.
Proof. cbn. apply times_comm. Qed.
